(** * Verification of [prompts/generate_tokens.py]

    A shallow embedding of the synthetic-text generator and of its
    command-line entry point, followed by the properties of the
    specification, each stated over the embedded code.

    Python values are modelled as follows.
    - [str]: a list of Unicode code points ([pystr]); [len] counts code
      points, as Python's [len] does.
    - [int]: [Z] (Python integers are unbounded).
    - the process-wide random source: an infinite sequence of raw draws
      with a cursor ([rng]); [random.choice] consumes one draw.
    - [while] loops: step-indexed by a fuel argument; running out of fuel
      is the distinct outcome [OutOfFuel], a raised exception is [Raise]. *)

From Stdlib Require Import ZArith NArith Arith List Bool Lia.
From Stdlib Require Import Ascii String DecimalString.
From Stdlib Require DecimalPos.
Import ListNotations.

Local Open Scope Z_scope.

(** ** Python strings *)

Module PyStr.

Definition codepoint := N.
Definition pystr := list codepoint.

(** [len(s)] *)
Definition len (s : pystr) : Z := Z.of_nat (List.length s).

(** Code points of the bytes of a Rocq string literal, read as UTF-8.
    Used only to write the literals of the source legibly. *)
Definition bytes_of_string (s : string) : list N :=
  List.map N_of_ascii (list_ascii_of_string s).

Fixpoint utf8_decode (bs : list N) : pystr :=
  match bs with
  | [] => []
  | b0 :: rest =>
    if (b0 <? 128)%N then b0 :: utf8_decode rest
    else if (b0 <? 224)%N then
      match rest with
      | b1 :: rest1 => ((b0 - 192) * 64 + (b1 - 128))%N :: utf8_decode rest1
      | _ => []
      end
    else if (b0 <? 240)%N then
      match rest with
      | b1 :: b2 :: rest2 =>
        ((b0 - 224) * 4096 + (b1 - 128) * 64 + (b2 - 128))%N
          :: utf8_decode rest2
      | _ => []
      end
    else
      match rest with
      | b1 :: b2 :: b3 :: rest3 =>
        ((b0 - 240) * 262144 + (b1 - 128) * 4096
         + (b2 - 128) * 64 + (b3 - 128))%N :: utf8_decode rest3
      | _ => []
      end
  end.

Definition lit (s : string) : pystr := utf8_decode (bytes_of_string s).

Definition nl : codepoint := 10%N.      (* "\n" *)
Definition space : codepoint := 32%N.   (* " " *)
Definition dquote : codepoint := 34%N.  (* the double quote *)
Definition star : codepoint := 42%N.    (* "*" *)

(** [str(n)] for an integer: decimal digits, with a leading minus sign
    for negative numbers. *)
Definition str_of_int (n : Z) : pystr :=
  bytes_of_string (NilEmpty.string_of_int (Z.to_int n)).

(** The slice [s[:n]].  A negative bound counts from the end; bounds
    outside the string are clamped. *)
Definition slice_to (s : pystr) (n : Z) : pystr :=
  if n <? 0 then firstn (Z.to_nat (len s + n)) s
  else firstn (Z.to_nat n) s.

(** [s.startswith(p)] *)
Fixpoint startswith (p s : pystr) : bool :=
  match p, s with
  | [], _ => true
  | _ :: _, [] => false
  | a :: p', b :: s' => (a =? b)%N && startswith p' s'
  end.

End PyStr.
Import PyStr.

(** ** The two pools of the source *)

Definition paragraphs : list pystr :=
  [ lit "Искусственный интеллект представляет собой область компьютерных наук, которая занимается созданием систем, способных выполнять задачи, требующие человеческого интеллекта. Это включает машинное обучение, обработку естественного языка, компьютерное зрение и робототехнику. Современные модели ИИ основаны на нейронных сетях с миллиардами параметров."
  ; lit "The development of large language models has revolutionized natural language processing. These models are trained on vast amounts of text data and can generate human-like responses, translate languages, write code, and answer complex questions. The architecture typically uses transformer networks with attention mechanisms."
  ; lit "Программирование на языке Go отличается простотой и эффективностью. Go был разработан в Google для создания надежных и масштабируемых систем. Ключевые особенности включают горутины для конкурентности, сборку мусора, статическую типизацию и быструю компиляцию."
  ; lit "REST API является архитектурным стилем для создания веб-сервисов. Основные принципы включают использование HTTP методов (GET, POST, PUT, DELETE), статусных кодов, и представление ресурсов в формате JSON или XML."
  ; lit "База данных PostgreSQL является мощной объектно-реляционной системой управления базами данных с открытым исходным кодом. Она поддерживает сложные запросы, транзакции ACID, индексы различных типов и полнотекстовый поиск."
  ; lit "Docker контейнеризация позволяет упаковывать приложения вместе со всеми зависимостями в изолированные контейнеры. Это обеспечивает консистентность между средами разработки и продакшена."
  ; lit "Машинное обучение разделяется на три основных типа: обучение с учителем, обучение без учителя и обучение с подкреплением. В обучении с учителем модель обучается на размеченных данных."
  ; lit "Cybersecurity encompasses the practices and technologies designed to protect systems, networks, and data from digital attacks. Key areas include network security, application security, and endpoint protection."
  ; lit "Микросервисная архитектура разбивает приложение на небольшие независимые сервисы, каждый из которых выполняет одну бизнес-функцию. Сервисы общаются через API или очереди сообщений."
  ; lit "Git является распределенной системой контроля версий, которая отслеживает изменения в файлах. Основные концепции включают коммиты, ветки, слияния и удаленные репозитории."
  ].

Definition code_examples : list pystr :=
  [ lit "```go" ++ [nl]
    ++ lit "func main() {" ++ [nl]
    ++ lit "    http.HandleFunc(" ++ [dquote] ++ lit "/api/users" ++ [dquote]
    ++ lit ", handleUsers)" ++ [nl]
    ++ lit "    log.Fatal(http.ListenAndServe(" ++ [dquote] ++ lit ":8080"
    ++ [dquote] ++ lit ", nil))" ++ [nl]
    ++ lit "}" ++ [nl]
    ++ lit "```"
  ; lit "```python" ++ [nl]
    ++ lit "def process(data: list) -> dict:" ++ [nl]
    ++ lit "    return {" ++ [dquote] ++ lit "count" ++ [dquote]
    ++ lit ": len(data), " ++ [dquote] ++ lit "items" ++ [dquote]
    ++ lit ": data}" ++ [nl]
    ++ lit "```"
  ; lit "```sql" ++ [nl]
    ++ lit "SELECT name, COUNT(" ++ [star] ++ lit ") as cnt FROM users GROUP BY name;"
    ++ [nl]
    ++ lit "```"
  ].

(** ** Outcomes, the random source and the generator monad *)

Inductive exn : Type :=
| IndexError.  (* [random.choice] on an empty sequence *)

Inductive outcome (A : Type) : Type :=
| Ok (a : A)
| Raise (e : exn)
| OutOfFuel.

Arguments Ok {A} a.
Arguments Raise {A} e.
Arguments OutOfFuel {A}.

(** The module-level generator of [random]: the draws it will deliver and
    how many of them have been consumed. *)
Record rng : Type := MkRng { draws : nat -> nat; cursor : nat }.

Definition advance (r : rng) : rng :=
  {| draws := draws r; cursor := S (cursor r) |}.

Definition M (A : Type) : Type := rng -> outcome (A * rng).

Definition ret {A} (a : A) : M A := fun r => Ok (a, r).

Definition bind {A B} (m : M A) (k : A -> M B) : M B :=
  fun r =>
    match m r with
    | Ok (a, r') => k a r'
    | Raise e => Raise e
    | OutOfFuel => OutOfFuel
    end.

Definition raise {A} (e : exn) : M A := fun _ => Raise e.

Definition out_of_fuel {A} : M A := fun _ => OutOfFuel.

Notation "x <- m ;; k" := (bind m (fun x => k))
  (at level 61, m at next level, right associativity).

(** [random._randbelow(n)]: one draw, reduced into [0, n). *)
Definition randbelow (n : nat) : M nat :=
  fun r => Ok ((draws r (cursor r) mod n)%nat, advance r).

(** [random.choice(seq)] *)
Definition choice (seq : list pystr) : M pystr :=
  match seq with
  | [] => raise IndexError
  | _ :: _ =>
    i <- randbelow (List.length seq) ;;
    ret (nth i seq [])
  end.

(** ** [generate_text] *)

Definition header : pystr := lit "# Technical Documentation" ++ [nl; nl].

(** The f-string [f"\n## Section {section_num}\n\n"]. *)
Definition section_heading (section_num : Z) : pystr :=
  [nl] ++ lit "## Section " ++ str_of_int section_num ++ [nl; nl].

(** The [while] loop of the small-target path. *)
Fixpoint small_loop (fuel : nat) (target_chars : Z) (output : pystr)
  : M pystr :=
  match fuel with
  | O => out_of_fuel
  | S fuel' =>
    if len output <? target_chars then
      p <- choice paragraphs ;;
      small_loop fuel' target_chars (output ++ [space] ++ p)
    else ret output
  end.

(** One iteration of [for i in range(5)]. *)
Definition section_item (target_chars : Z) (i : Z) (output : pystr)
  : M pystr :=
  p <- choice paragraphs ;;
  let output := output ++ (p ++ [nl; nl]) in
  if (i mod 2 =? 0) && (len output <? target_chars) then
    c <- choice code_examples ;;
    ret (output ++ (c ++ [nl; nl]))
  else ret output.

Fixpoint for_range (target_chars : Z) (range : list Z) (output : pystr)
  : M pystr :=
  match range with
  | [] => ret output
  | i :: range' =>
    output' <- section_item target_chars i output ;;
    for_range target_chars range' output'
  end.

Definition range5 : list Z := [0; 1; 2; 3; 4].

(** The [while] loop of the large-target path. *)
Fixpoint section_loop (fuel : nat) (target_chars : Z) (output : pystr)
  (section_num : Z) : M pystr :=
  match fuel with
  | O => out_of_fuel
  | S fuel' =>
    if len output <? target_chars then
      let output := output ++ section_heading section_num in
      output' <- for_range target_chars range5 output ;;
      section_loop fuel' target_chars output' (section_num + 1)
    else ret output
  end.

Definition generate_text (fuel : nat) (target_tokens : Z) : M pystr :=
  let target_chars := target_tokens * 4 in
  if target_tokens <=? 100 then
    output <- choice paragraphs ;;
    output' <- small_loop fuel target_chars output ;;
    ret (slice_to output' target_chars)
  else
    section_loop fuel target_chars header 1.

(** [generate_text] returns [out] from the random source [r]: some amount
    of fuel lets the run complete with that string. *)
Definition returns (target_tokens : Z) (r : rng) (out : pystr) : Prop :=
  exists fuel r', generate_text fuel target_tokens r = Ok (out, r').

(** ** [main] *)

Record process : Type :=
  MkProcess { exit_code : Z; stdout : pystr; stderr : pystr }.

(** [print(s, file=stream)]: the text and a newline are appended. *)
Definition print (s : pystr) (stream : pystr) : pystr := stream ++ s ++ [nl].

Definition usage_line : pystr :=
  lit "Usage: python3 generate_tokens.py <token_count>".

Definition example_line : pystr :=
  lit "Example: python3 generate_tokens.py 50000".

Definition error_line (arg : pystr) : pystr :=
  lit "Error: '" ++ arg ++ lit "' is not a valid number".

Definition estimated_tokens (char_count : Z) : Z := char_count / 4.

Definition summary_line (target_tokens char_count : Z) : pystr :=
  [nl] ++ lit "---" ++ [nl] ++ lit "Target: " ++ str_of_int target_tokens
  ++ lit " tokens | Actual: ~" ++ str_of_int (estimated_tokens char_count)
  ++ lit " tokens (" ++ str_of_int char_count ++ lit " chars)".

Section Main.

(** The builtin [int] on strings; [None] stands for the [ValueError]
    that [main] catches. *)
Variable int_of_str : pystr -> option Z.

(** [sys.exit(1)] ends the process with what has been printed so far;
    a run that reaches the end of [main] exits with status 0. *)
Definition main (fuel : nat) (argv : list pystr) : M process :=
  if Z.of_nat (List.length argv) <? 2 then
    let err := print example_line (print usage_line []) in
    ret {| exit_code := 1; stdout := []; stderr := err |}
  else
    let arg := nth 1 argv [] in
    match int_of_str arg with
    | None =>
      let err := print (error_line arg) [] in
      ret {| exit_code := 1; stdout := []; stderr := err |}
    | Some target_tokens =>
      output <- generate_text fuel target_tokens ;;
      let out := print output [] in
      let char_count := len output in
      let err := print (summary_line target_tokens char_count) [] in
      ret {| exit_code := 0; stdout := out; stderr := err |}
    end.

End Main.

(** A reader of plain decimal literals (optional sign, ASCII digits), on
    which it agrees with [int]; it instantiates [int_of_str] in the
    examples. *)
Fixpoint digits_value (acc : Z) (s : pystr) : option Z :=
  match s with
  | [] => Some acc
  | c :: s' =>
    if ((48 <=? c) && (c <=? 57))%N
    then digits_value (acc * 10 + (Z.of_N c - 48)) s'
    else None
  end.

Definition parse_decimal (s : pystr) : option Z :=
  match s with
  | [] => None
  | c :: s' =>
    if (c =? 45)%N then
      match s' with [] => None | _ => option_map Z.opp (digits_value 0 s') end
    else if (c =? 43)%N then
      match s' with [] => None | _ => digits_value 0 s' end
    else digits_value 0 s
  end.

(** A random source that always draws [k]. *)
Definition const_rng (k : nat) : rng := {| draws := fun _ => k; cursor := O |}.

(** A random source that draws the numbers of [l], then zeros. *)
Definition seq_rng (l : list nat) : rng :=
  {| draws := fun i => nth i l O; cursor := O |}.

(** The length of the string a run returned, if it returned one. *)
Definition result_len (o : outcome (pystr * rng)) : option Z :=
  match o with
  | Ok (s, _) => Some (len s)
  | _ => None
  end.

(** ** Reading the section headings off a text

    The lines of a text are the pieces between newline characters; its
    section headings are the lines that start with ["## Section "]. *)

Fixpoint split_lines (s : pystr) : list pystr :=
  match s with
  | [] => [[]]
  | c :: s' =>
    if (c =? nl)%N then [] :: split_lines s'
    else
      match split_lines s' with
      | line :: lines => (c :: line) :: lines
      | [] => [[c]]
      end
  end.

Definition heading_prefix : pystr := lit "## Section ".

Definition is_section_heading (line : pystr) : bool :=
  startswith heading_prefix line.

Definition section_headings (s : pystr) : list pystr :=
  filter is_section_heading (split_lines s).

(** The heading line of section [n], as it reads in the output. *)
Definition heading_line (n : Z) : pystr := heading_prefix ++ str_of_int n.

(** The text ends with a newline. *)
Definition ends_nl (s : pystr) : Prop := exists pre, s = pre ++ [nl].

(** The pool element that [random.choice] takes with the next draw. *)
Definition next_choice (seq : list pystr) (r : rng) : pystr :=
  nth (draws r (cursor r) mod List.length seq)%nat seq [].




(** ** Reading a run off the draws *)

(** The element of [seq] that the [i]-th coming draw selects. *)
Definition drawn (seq : list pystr) (r : rng) (i : nat) : pystr :=
  nth (draws r (cursor r + i) mod List.length seq)%nat seq [].

(** [" ".join(ps)] *)
Definition join_spaces (ps : list pystr) : pystr :=
  match ps with
  | [] => []
  | p :: ps' => p ++ List.concat (map (fun q => space :: q) ps')
  end.

(** The paragraphs of the first [n] coming draws, joined by spaces. *)
Definition joined (r : rng) (n : nat) : pystr :=
  join_spaces (map (drawn paragraphs r) (seq 0 n)).

(** What [k] iterations of the small-target loop append. *)
Definition appended (r : rng) (k : nat) : pystr :=
  List.concat (map (fun i => space :: drawn paragraphs r i) (seq 0 k)).

(** Bounds on what one iteration of [for i in range(5)] can add: a
    paragraph of at most 346 characters and its blank line, and on even
    [i] a code snippet of at most 121 characters and its blank line. *)
Definition item_max_len (i : Z) : Z :=
  348 + (if i mod 2 =? 0 then 123 else 0).

Definition item_max_draws (i : Z) : nat :=
  if i mod 2 =? 0 then 2%nat else 1%nat.

Definition range_max_len (range : list Z) : Z :=
  fold_right (fun i acc => item_max_len i + acc) 0 range.

Definition range_max_draws (range : list Z) : nat :=
  fold_right (fun i acc => (item_max_draws i + acc)%nat) O range.

(** The text ends with an empty line. *)
Definition ends_blank_line (s : pystr) : Prop := exists pre, s = pre ++ [nl; nl].

(** * Properties *)

(** ** The monad *)

Lemma bind_Ok_inv {A B} (m : M A) (k : A -> M B) r b r2 :
  bind m k r = Ok (b, r2) ->
  exists a r1, m r = Ok (a, r1) /\ k a r1 = Ok (b, r2).
Proof.
  unfold bind. destruct (m r) as [[a r1] | e | ]; try discriminate.
  intros H. exists a, r1. split; [reflexivity | exact H].
Qed.

Lemma bind_Ok {A B} {m : M A} (k : A -> M B) {r a r1} :
  m r = Ok (a, r1) -> bind m k r = k a r1.
Proof. unfold bind. intros ->. reflexivity. Qed.

Lemma choice_Ok (seq : list pystr) r :
  seq <> [] -> choice seq r = Ok (next_choice seq r, advance r).
Proof.
  destruct seq as [| x xs]; [congruence | intros _; reflexivity].
Qed.

Lemma next_choice_In (seq : list pystr) r :
  seq <> [] -> In (next_choice seq r) seq.
Proof.
  intros H. unfold next_choice. apply nth_In.
  apply Nat.mod_upper_bound. destruct seq; [congruence | discriminate].
Qed.

Lemma paragraphs_nonempty : paragraphs <> [].
Proof. unfold paragraphs. discriminate. Qed.

Lemma code_examples_nonempty : code_examples <> [].
Proof. unfold code_examples. discriminate. Qed.

Lemma choice_paragraphs r :
  choice paragraphs r = Ok (next_choice paragraphs r, advance r).
Proof. apply choice_Ok, paragraphs_nonempty. Qed.

Lemma choice_code_examples r :
  choice code_examples r = Ok (next_choice code_examples r, advance r).
Proof. apply choice_Ok, code_examples_nonempty. Qed.

Lemma choice_Ok_inv (seq : list pystr) r p r' :
  choice seq r = Ok (p, r') ->
  seq <> [] /\ p = next_choice seq r /\ r' = advance r /\ In p seq.
Proof.
  intros H. assert (Hne : seq <> []).
  { destruct seq; [discriminate H | discriminate]. }
  rewrite (choice_Ok seq r Hne) in H. inversion H; subst.
  repeat split; auto using next_choice_In.
Qed.

(** ** Lengths *)

Lemma len_app (a b : pystr) : len (a ++ b) = len a + len b.
Proof. unfold len. rewrite length_app. lia. Qed.

Lemma len_nonneg (a : pystr) : 0 <= len a.
Proof. unfold len. lia. Qed.

Lemma len_cons c (a : pystr) : len (c :: a) = 1 + len a.
Proof. unfold len. simpl List.length. lia. Qed.

Lemma slice_to_len (s : pystr) (n : Z) :
  0 <= n <= len s -> len (slice_to s n) = n.
Proof.
  intros H. unfold slice_to.
  destruct (Z.ltb_spec n 0) as [Hn | Hn]; [lia |].
  unfold len in *. rewrite length_firstn. lia.
Qed.

(** ** Unfolding the loops *)

Lemma small_loop_S fuel tc out :
  small_loop (S fuel) tc out =
  if len out <? tc then
    p <- choice paragraphs ;; small_loop fuel tc (out ++ [space] ++ p)
  else ret out.
Proof. reflexivity. Qed.

Lemma section_loop_S fuel tc out n :
  section_loop (S fuel) tc out n =
  if len out <? tc then
    out' <- for_range tc range5 (out ++ section_heading n) ;;
    section_loop fuel tc out' (n + 1)
  else ret out.
Proof. reflexivity. Qed.

Lemma for_range_cons tc i range out :
  for_range tc (i :: range) out =
  (out' <- section_item tc i out ;; for_range tc range out').
Proof. reflexivity. Qed.

(** ** Invariants of the loops *)

Section SmallLoop.

Variable P : pystr -> Prop.
Hypothesis P_step :
  forall out p, In p paragraphs -> P out -> P (out ++ [space] ++ p).

(** What the small-target loop returns satisfies every property that
    its body preserves, and has reached the target length. *)
Lemma small_loop_inv fuel tc : forall out r out' r',
  small_loop fuel tc out r = Ok (out', r') ->
  P out -> P out' /\ tc <= len out'.
Proof.
  induction fuel as [| fuel IH]; intros out r out' r' Hrun HP.
  - discriminate Hrun.
  - rewrite small_loop_S in Hrun.
    destruct (Z.ltb_spec (len out) tc) as [Hlt | Hge].
    + apply bind_Ok_inv in Hrun as (p & r1 & Hp & Hrun).
      apply choice_Ok_inv in Hp as (_ & _ & _ & Hin).
      eapply IH; eauto.
    + inversion Hrun; subst. split; [assumption | lia].
Qed.

End SmallLoop.

Section ForRange.

Variable Q : pystr -> Prop.
Hypothesis Q_paragraph :
  forall out p, In p paragraphs -> Q out -> Q (out ++ (p ++ [nl; nl])).
Hypothesis Q_code :
  forall out c, In c code_examples -> Q out -> Q (out ++ (c ++ [nl; nl])).

Lemma section_item_inv tc i out r out' r' :
  section_item tc i out r = Ok (out', r') -> Q out -> Q out'.
Proof.
  unfold section_item. intros Hrun HQ.
  apply bind_Ok_inv in Hrun as (p & r1 & Hp & Hrun).
  apply choice_Ok_inv in Hp as (_ & _ & _ & Hin).
  destruct ((i mod 2 =? 0) && (len (out ++ p ++ [nl; nl]) <? tc)).
  - apply bind_Ok_inv in Hrun as (c & r2 & Hc & Hrun).
    apply choice_Ok_inv in Hc as (_ & _ & _ & Hinc).
    inversion Hrun; subst. auto.
  - inversion Hrun; subst. auto.
Qed.

Lemma for_range_inv tc range : forall out r out' r',
  for_range tc range out r = Ok (out', r') -> Q out -> Q out'.
Proof.
  induction range as [| i range IH]; intros out r out' r' Hrun HQ.
  - inversion Hrun; subst. assumption.
  - rewrite for_range_cons in Hrun.
    apply bind_Ok_inv in Hrun as (o1 & r1 & Hitem & Hrun).
    eapply IH; eauto using section_item_inv.
Qed.

End ForRange.

(** The body of a section never fails and never stops early. *)
Lemma section_item_total tc i out r :
  exists out' r', section_item tc i out r = Ok (out', r').
Proof.
  unfold section_item.
  rewrite (bind_Ok _ (choice_paragraphs r)).
  destruct ((i mod 2 =? 0)
            && (len (out ++ next_choice paragraphs r ++ [nl; nl]) <? tc)).
  - rewrite (bind_Ok _ (choice_code_examples (advance r))).
    eexists _, _. reflexivity.
  - eexists _, _. reflexivity.
Qed.

Lemma for_range_total tc range : forall out r,
  exists out' r', for_range tc range out r = Ok (out', r').
Proof.
  induction range as [| i range IH]; intros out r.
  - eexists _, _. reflexivity.
  - rewrite for_range_cons.
    destruct (section_item_total tc i out r) as (o1 & r1 & H1).
    rewrite (bind_Ok _ H1). apply IH.
Qed.

Lemma for_range_len tc range out r out' r' :
  for_range tc range out r = Ok (out', r') -> len out <= len out'.
Proof.
  intros H.
  apply (for_range_inv (fun o => len out <= len o)) in H; auto; try lia;
    intros o x _ Ho; rewrite len_app; pose proof (len_nonneg (x ++ [nl; nl]));
    lia.
Qed.

Lemma section_heading_len n : 1 <= len (section_heading n).
Proof.
  unfold section_heading. rewrite len_app.
  change (len [nl]) with 1.
  pose proof (len_nonneg (lit "## Section " ++ str_of_int n ++ [nl; nl])).
  lia.
Qed.

(** What the large-target loop returns has reached the target length and
    extends the text the loop started from. *)
Lemma section_loop_post fuel tc : forall out n r out' r',
  section_loop fuel tc out n r = Ok (out', r') ->
  tc <= len out' /\ exists rest, out' = out ++ rest.
Proof.
  induction fuel as [| fuel IH]; intros out n r out' r' Hrun.
  - discriminate Hrun.
  - rewrite section_loop_S in Hrun.
    destruct (Z.ltb_spec (len out) tc) as [Hlt | Hge].
    + apply bind_Ok_inv in Hrun as (o1 & r1 & Hfor & Hrun).
      apply IH in Hrun as (Hlen & rest & ->). split; [assumption |].
      apply (for_range_inv (fun o => exists rest, o = out ++ rest)) in Hfor.
      * destruct Hfor as (rest1 & ->). exists (rest1 ++ rest).
        now rewrite <- app_assoc.
      * intros o p _ (x & ->). exists (x ++ p ++ [nl; nl]).
        now rewrite <- app_assoc.
      * intros o c _ (x & ->). exists (x ++ c ++ [nl; nl]).
        now rewrite <- app_assoc.
      * exists (section_heading n). reflexivity.
    + inversion Hrun; subst. split; [lia |]. exists []. now rewrite app_nil_r.
Qed.

(** ** Termination: enough fuel lets each loop complete *)

Lemma small_loop_total fuel tc : forall out r,
  (Z.to_nat (tc - len out) < fuel)%nat ->
  exists out' r', small_loop fuel tc out r = Ok (out', r').
Proof.
  induction fuel as [| fuel IH]; intros out r Hfuel; [lia |].
  rewrite small_loop_S.
  destruct (Z.ltb_spec (len out) tc) as [Hlt | Hge].
  - rewrite (bind_Ok _ (choice_paragraphs r)). apply IH.
    rewrite !len_app. change (len [space]) with 1.
    pose proof (len_nonneg (next_choice paragraphs r)). lia.
  - eexists _, _. reflexivity.
Qed.

Lemma section_loop_total fuel tc : forall out n r,
  (Z.to_nat (tc - len out) < fuel)%nat ->
  exists out' r', section_loop fuel tc out n r = Ok (out', r').
Proof.
  induction fuel as [| fuel IH]; intros out n r Hfuel; [lia |].
  rewrite section_loop_S.
  destruct (Z.ltb_spec (len out) tc) as [Hlt | Hge].
  - destruct (for_range_total tc range5 (out ++ section_heading n) r)
      as (o1 & r1 & Hfor).
    rewrite (bind_Ok _ Hfor). apply IH.
    apply for_range_len in Hfor. rewrite len_app in Hfor.
    pose proof (section_heading_len n). lia.
  - eexists _, _. reflexivity.
Qed.

(** More fuel does not change a completed run. *)
Lemma small_loop_fuel_mono {fuel tc} : forall {fuel' out r res},
  small_loop fuel tc out r = Ok res -> (fuel <= fuel')%nat ->
  small_loop fuel' tc out r = Ok res.
Proof.
  induction fuel as [| fuel IH]; intros fuel' out r res Hrun Hle.
  - discriminate Hrun.
  - destruct fuel' as [| fuel']; [lia |].
    rewrite small_loop_S in *.
    destruct (len out <? tc); [| assumption].
    destruct res as [b r2].
    apply bind_Ok_inv in Hrun as (p & r1 & Hp & Hrun).
    rewrite (bind_Ok _ Hp). apply IH; [assumption | lia].
Qed.

Lemma section_loop_fuel_mono {fuel tc} : forall {fuel' out n r res},
  section_loop fuel tc out n r = Ok res -> (fuel <= fuel')%nat ->
  section_loop fuel' tc out n r = Ok res.
Proof.
  induction fuel as [| fuel IH]; intros fuel' out n r res Hrun Hle.
  - discriminate Hrun.
  - destruct fuel' as [| fuel']; [lia |].
    rewrite section_loop_S in *.
    destruct (len out <? tc); [| assumption].
    destruct res as [b r2].
    apply bind_Ok_inv in Hrun as (o1 & r1 & Hfor & Hrun).
    rewrite (bind_Ok _ Hfor). apply IH; [assumption | lia].
Qed.


Lemma len_header : len header = 27.
Proof. reflexivity. Qed.

(** The generator completes for every target, with a bound on the number
    of loop iterations that is needed. *)
Lemma generate_text_total t r :
  exists out r', forall fuel,
    (Z.to_nat (t * 4) < fuel)%nat -> generate_text fuel t r = Ok (out, r').
Proof.
  unfold generate_text.
  destruct (t <=? 100).
  - set (p := next_choice paragraphs r).
    destruct (small_loop_total (S (Z.to_nat (t * 4))) (t * 4) p (advance r))
      as (o & r2 & Hloop).
    { pose proof (len_nonneg p). lia. }
    exists (slice_to o (t * 4)), r2. intros fuel Hfuel.
    rewrite (bind_Ok _ (choice_paragraphs r)). fold p.
    rewrite (bind_Ok _ (small_loop_fuel_mono Hloop Hfuel)).
    reflexivity.
  - destruct (section_loop_total (S (Z.to_nat (t * 4))) (t * 4) header 1 r)
      as (o & r2 & Hloop).
    { rewrite len_header. lia. }
    exists o, r2. intros fuel Hfuel.
    eapply section_loop_fuel_mono; eauto.
Qed.

Lemma generate_text_returns t r : exists out, returns t r out.
Proof.
  destruct (generate_text_total t r) as (out & r' & H).
  exists out, (S (Z.to_nat (t * 4))), r'. apply H. lia.
Qed.

(** ** The pools *)

Lemma paragraphs_no_newline p : In p paragraphs -> ~ In nl p.
Proof.
  assert (H : forallb (fun q => negb (existsb (N.eqb nl) q)) paragraphs = true)
    by (vm_compute; reflexivity).
  rewrite forallb_forall in H. intros Hin Hnl.
  specialize (H p Hin). apply negb_true_iff in H.
  assert (Hex : existsb (N.eqb nl) p = true).
  { apply existsb_exists. exists nl. split; [assumption | apply N.eqb_refl]. }
  congruence.
Qed.

Lemma In_firstn {A} (x : A) n l : In x (firstn n l) -> In x l.
Proof.
  intros H. rewrite <- (firstn_skipn n l). apply in_or_app. now left.
Qed.

Lemma In_slice_to c s n : In c (slice_to s n) -> In c s.
Proof. unfold slice_to. destruct (n <? 0); apply In_firstn. Qed.

(** ** The two paths of [generate_text] *)

Lemma generate_text_small fuel t r :
  t <= 100 ->
  generate_text fuel t r =
  (output' <- small_loop fuel (t * 4) (next_choice paragraphs r) ;;
   ret (slice_to output' (t * 4))) (advance r).
Proof.
  intros Ht. unfold generate_text.
  destruct (Z.leb_spec t 100); [| lia].
  now rewrite (bind_Ok _ (choice_paragraphs r)).
Qed.

Lemma generate_text_large fuel t r :
  100 < t -> generate_text fuel t r = section_loop fuel (t * 4) header 1 r.
Proof.
  intros Ht. unfold generate_text. destruct (Z.leb_spec t 100); [lia |].
  reflexivity.
Qed.

Lemma generate_text_small_inv fuel t r out r' :
  t <= 100 -> generate_text fuel t r = Ok (out, r') ->
  exists o,
    small_loop fuel (t * 4) (next_choice paragraphs r) (advance r) = Ok (o, r')
    /\ out = slice_to o (t * 4).
Proof.
  intros Ht Hrun. rewrite generate_text_small in Hrun by assumption.
  apply bind_Ok_inv in Hrun as (o & r1 & Hloop & Hret).
  inversion Hret; subst. now exists o.
Qed.

(** ** Determinism *)











(** ** No exception is raised *)

Lemma small_loop_no_raise fuel tc : forall out r e,
  small_loop fuel tc out r <> Raise e.
Proof.
  induction fuel as [| fuel IH]; intros out r e; [discriminate |].
  rewrite small_loop_S. destruct (len out <? tc); [| discriminate].
  rewrite (bind_Ok _ (choice_paragraphs r)). apply IH.
Qed.

Lemma section_loop_no_raise fuel tc : forall out n r e,
  section_loop fuel tc out n r <> Raise e.
Proof.
  induction fuel as [| fuel IH]; intros out n r e; [discriminate |].
  rewrite section_loop_S. destruct (len out <? tc); [| discriminate].
  destruct (for_range_total tc range5 (out ++ section_heading n) r)
    as (o1 & r1 & Hfor).
  rewrite (bind_Ok _ Hfor). apply IH.
Qed.

Lemma generate_text_no_raise fuel t r e : generate_text fuel t r <> Raise e.
Proof.
  unfold generate_text. destruct (t <=? 100).
  - rewrite (bind_Ok _ (choice_paragraphs r)). unfold bind.
    pose proof (small_loop_no_raise fuel (t * 4)
                  (next_choice paragraphs r) (advance r)) as H.
    destruct (small_loop fuel (t * 4) (next_choice paragraphs r) (advance r))
      as [[o r1] | e1 |]; try discriminate.
    now specialize (H e1).
  - apply section_loop_no_raise.
Qed.

(** ** Lines and section headings *)

Lemma split_lines_nonempty s : split_lines s <> [].
Proof.
  destruct s as [| c s]; simpl; [discriminate |].
  destruct (c =? nl)%N; [discriminate |].
  destruct (split_lines s); discriminate.
Qed.

Lemma split_lines_app_nl a b :
  split_lines (a ++ nl :: b) = split_lines a ++ split_lines b.
Proof.
  induction a as [| c a IH]; simpl.
  - reflexivity.
  - destruct (c =? nl)%N.
    + now rewrite IH.
    + rewrite IH. pose proof (split_lines_nonempty a) as Hne.
      destruct (split_lines a) as [| line lines]; [congruence | reflexivity].
Qed.

Lemma split_lines_no_newline s : ~ In nl s -> split_lines s = [s].
Proof.
  induction s as [| c s IH]; intros Hnl; simpl; [reflexivity |].
  destruct (N.eqb_spec c nl) as [-> | Hc].
  - exfalso. apply Hnl. now left.
  - rewrite IH; [reflexivity |]. intros Hin. apply Hnl. now right.
Qed.

Lemma section_headings_app_nl a b :
  section_headings (a ++ nl :: b) = section_headings a ++ section_headings b.
Proof.
  unfold section_headings. now rewrite split_lines_app_nl, filter_app.
Qed.

Lemma section_headings_after_nl a b :
  ends_nl a ->
  section_headings (a ++ b) = section_headings a ++ section_headings b.
Proof.
  intros (pre & ->). rewrite <- app_assoc. simpl app.
  rewrite !section_headings_app_nl.
  change (section_headings []) with (@nil pystr).
  now rewrite app_nil_r.
Qed.

Lemma ends_nl_app a b : ends_nl b -> ends_nl (a ++ b).
Proof. intros (pre & ->). exists (a ++ pre). now rewrite app_assoc. Qed.

Lemma startswith_app p x : startswith p (p ++ x) = true.
Proof.
  induction p as [| c p IH]; simpl; [reflexivity |].
  now rewrite N.eqb_refl, IH.
Qed.

Lemma string_of_uint_no_newline d :
  ~ In nl (bytes_of_string (NilEmpty.string_of_uint d)).
Proof.
  induction d; simpl; intros H;
    try (destruct H as [H | H]; [discriminate H | contradiction]).
  contradiction.
Qed.

Lemma str_of_int_no_newline n : ~ In nl (str_of_int n).
Proof.
  unfold str_of_int. destruct (Z.to_int n) as [d | d]; simpl.
  - apply string_of_uint_no_newline.
  - intros [H | H]; [discriminate H |].
    now apply (string_of_uint_no_newline d).
Qed.

Lemma heading_line_no_newline n : ~ In nl (heading_line n).
Proof.
  unfold heading_line. intros H. apply in_app_or in H as [H | H].
  - revert H. vm_compute. intuition discriminate.
  - now apply (str_of_int_no_newline n).
Qed.

Lemma section_heading_eq n :
  section_heading n = [] ++ nl :: heading_line n ++ nl :: [nl].
Proof.
  unfold section_heading, heading_line, heading_prefix.
  rewrite <- app_assoc. reflexivity.
Qed.

(** The text of a heading holds one heading line: its own. *)
Lemma section_headings_heading n :
  section_headings (section_heading n) = [heading_line n].
Proof.
  rewrite section_heading_eq, !section_headings_app_nl.
  change (section_headings []) with (@nil pystr).
  change (section_headings [nl]) with (@nil pystr).
  assert (Hhead : is_section_heading (heading_line n) = true)
    by apply startswith_app.
  unfold section_headings.
  rewrite split_lines_no_newline by apply heading_line_no_newline.
  cbn [filter app]. now rewrite Hhead.
Qed.

Lemma ends_nl_section_heading n : ends_nl (section_heading n).
Proof.
  exists ([nl] ++ lit "## Section " ++ str_of_int n ++ [nl]).
  unfold section_heading. now rewrite <- !app_assoc.
Qed.

(** No paragraph and no code snippet holds a line that reads as a
    section heading. *)
Lemma pool_no_heading (pool : list pystr) x :
  forallb (fun y => match section_headings (y ++ [nl; nl]) with
                    | [] => true
                    | _ :: _ => false
                    end) pool = true ->
  In x pool -> section_headings (x ++ [nl; nl]) = [].
Proof.
  intros H Hin. rewrite forallb_forall in H. specialize (H x Hin).
  now destruct (section_headings (x ++ [nl; nl])).
Qed.

Lemma paragraphs_no_heading p :
  In p paragraphs -> section_headings (p ++ [nl; nl]) = [].
Proof. apply pool_no_heading. vm_compute. reflexivity. Qed.

Lemma code_examples_no_heading c :
  In c code_examples -> section_headings (c ++ [nl; nl]) = [].
Proof. apply pool_no_heading. vm_compute. reflexivity. Qed.

Lemma ends_nl_piece x : ends_nl (x ++ [nl; nl]).
Proof. exists (x ++ [nl]). now rewrite <- app_assoc. Qed.

(** The body of a section adds complete lines, none of them a heading. *)
Lemma for_range_headings tc range out r out' r' :
  for_range tc range out r = Ok (out', r') ->
  ends_nl out ->
  ends_nl out' /\ section_headings out' = section_headings out.
Proof.
  intros Hrun Hnl.
  apply (for_range_inv
           (fun o => ends_nl o /\ section_headings o = section_headings out))
    in Hrun; auto.
  - intros o p Hp [Ho Hh]. split; [apply ends_nl_app, ends_nl_piece |].
    rewrite section_headings_after_nl by assumption.
    now rewrite paragraphs_no_heading, app_nil_r.
  - intros o c Hc [Ho Hh]. split; [apply ends_nl_app, ends_nl_piece |].
    rewrite section_headings_after_nl by assumption.
    now rewrite code_examples_no_heading, app_nil_r.
Qed.

(** Started with section number [k], the loop adds the headings of the
    sections [k], [k + 1], ..., in this order and no other heading; it adds
    at least one when the text is still below the target. *)
Lemma section_loop_headings fuel tc : forall out k r out' r',
  section_loop fuel tc out (Z.of_nat k) r = Ok (out', r') ->
  ends_nl out ->
  exists m,
    section_headings out' =
    section_headings out
    ++ map (fun i => heading_line (Z.of_nat i)) (seq k m)
    /\ (len out < tc -> (1 <= m)%nat).
Proof.
  induction fuel as [| fuel IH]; intros out k r out' r' Hrun Hnl.
  - discriminate Hrun.
  - rewrite section_loop_S in Hrun.
    destruct (Z.ltb_spec (len out) tc) as [Hlt | Hge].
    + apply bind_Ok_inv in Hrun as (o1 & r1 & Hfor & Hrun).
      apply for_range_headings in Hfor as [Hnl1 Hh1];
        [| apply ends_nl_app, ends_nl_section_heading].
      replace (Z.of_nat k + 1) with (Z.of_nat (S k)) in Hrun by lia.
      apply IH in Hrun as (m & Hm & _); [| assumption].
      exists (S m). split; [| lia].
      rewrite Hm, Hh1, section_headings_after_nl by assumption.
      rewrite section_headings_heading, <- app_assoc. reflexivity.
    + inversion Hrun; subst. exists O. split; [| lia].
      simpl. now rewrite app_nil_r.
Qed.

Lemma generate_text_small_len fuel t r out r' :
  0 < t <= 100 -> generate_text fuel t r = Ok (out, r') -> len out = t * 4.
Proof.
  intros Ht Hrun.
  apply generate_text_small_inv in Hrun as (o & Hloop & ->); [| lia].
  apply (small_loop_inv (fun _ => True)) in Hloop as [_ Hlen]; auto.
  apply slice_to_len. lia.
Qed.

(** * The claims of the specification *)

(** ** Small targets *)

(** C1.  For every target in (0, 100] the generator returns a string of
    exactly [target_tokens * 4] characters. *)
Theorem small_target_exact_length (t : Z) (r : rng) :
  0 < t <= 100 ->
  exists out, returns t r out /\ len out = t * 4.
Proof.
  intros Ht.
  destruct (generate_text_returns t r) as (out & fuel & r' & Hrun).
  exists out. split; [now exists fuel, r' |].
  eapply generate_text_small_len; eauto.
Qed.

Lemma small_target_exact_length_witness :
  0 < 50 <= 100 /\
  exists out, returns 50 (const_rng 1) out /\ len out = 50 * 4.
Proof.
  split; [lia | apply (small_target_exact_length 50 (const_rng 1)); lia].
Defined.

(** A run that needs a second paragraph: the third paragraph (259
    characters) is below the 400 of the budget, the sixth is appended
    after a space and the result is cut to 400 characters; two draws are
    consumed. *)
Example small_target_two_paragraphs :
  generate_text 2 100 (seq_rng [2; 5]%nat) =
  Ok (firstn 400 (nth 2 paragraphs [] ++ [space] ++ nth 5 paragraphs []),
      advance (advance (seq_rng [2; 5]%nat))).
Proof. vm_compute. reflexivity. Qed.

(** C3.  For every target that is zero or negative the loop body never
    runs (one unit of fuel is enough): exactly one paragraph is drawn and
    the result is that paragraph cut by the final slice. *)
Theorem nonpositive_target_single_paragraph (t : Z) (r : rng) :
  t <= 0 ->
  In (next_choice paragraphs r) paragraphs /\
  forall fuel,
    generate_text (S fuel) t r =
    Ok (slice_to (next_choice paragraphs r) (t * 4), advance r).
Proof.
  intros Ht. split; [apply next_choice_In, paragraphs_nonempty |].
  intros fuel. rewrite generate_text_small by lia.
  unfold bind. rewrite small_loop_S.
  pose proof (len_nonneg (next_choice paragraphs r)).
  destruct (Z.ltb_spec (len (next_choice paragraphs r)) (t * 4)); [lia |].
  reflexivity.
Qed.

Lemma nonpositive_target_single_paragraph_witness :
  -1 <= 0 /\
  In (next_choice paragraphs (const_rng 9)) paragraphs /\
  forall fuel,
    generate_text (S fuel) (-1) (const_rng 9) =
    Ok (slice_to (next_choice paragraphs (const_rng 9)) (-1 * 4),
        advance (const_rng 9)).
Proof.
  split; [lia |].
  apply (nonpositive_target_single_paragraph (-1) (const_rng 9)); lia.
Defined.

(** The final slice at work: target 0 returns the empty string, target -1
    drops the last four characters of the paragraph, and a target of -100
    leaves nothing of it. *)
Example nonpositive_target_slices :
  result_len (generate_text 1 0 (const_rng 9)) = Some 0 /\
  result_len (generate_text 1 (-1) (const_rng 9)) = Some 166 /\
  result_len (generate_text 1 (-100) (const_rng 9)) = Some 0.
Proof. vm_compute. repeat split. Qed.

(** C9.  For every target in (0, 100] the returned string contains no
    newline character. *)
Theorem small_target_no_newline (t : Z) (r : rng) :
  0 < t <= 100 ->
  exists out, returns t r out /\ ~ In nl out.
Proof.
  intros Ht.
  destruct (generate_text_returns t r) as (out & fuel & r' & Hrun).
  exists out. split; [now exists fuel, r' |].
  apply generate_text_small_inv in Hrun as (o & Hloop & ->); [| lia].
  apply (small_loop_inv (fun s => ~ In nl s)) in Hloop as [Hnl _].
  - intros Hin. apply Hnl. eapply In_slice_to; eauto.
  - intros s p Hp Hs Hin.
    apply in_app_or in Hin as [Hin | Hin]; [auto |].
    apply in_app_or in Hin as [Hin | Hin].
    + destruct Hin as [Heq | []]. discriminate Heq.
    + now apply (paragraphs_no_newline p).
  - apply paragraphs_no_newline, next_choice_In, paragraphs_nonempty.
Qed.

Lemma small_target_no_newline_witness :
  0 < 100 <= 100 /\
  exists out, returns 100 (const_rng 3) out /\ ~ In nl out.
Proof.
  split; [lia | apply (small_target_no_newline 100 (const_rng 3)); lia].
Defined.

(** ** Large targets *)

(** C2.  For every target above 100 the generator returns a string of at
    least [target_tokens * 4] characters. *)
Theorem large_target_reaches_budget (t : Z) (r : rng) :
  100 < t ->
  exists out, returns t r out /\ t * 4 <= len out.
Proof.
  intros Ht.
  destruct (generate_text_returns t r) as (out & fuel & r' & Hrun).
  exists out. split; [now exists fuel, r' |].
  rewrite generate_text_large in Hrun by assumption.
  now apply section_loop_post in Hrun as [Hlen _].
Qed.

Lemma large_target_reaches_budget_witness :
  100 < 101 /\
  exists out, returns 101 (const_rng 0) out /\ 101 * 4 <= len out.
Proof.
  split; [lia | apply (large_target_reaches_budget 101 (const_rng 0)); lia].
Defined.

(** The large-target path does not cut its result: a run for 101 tokens
    that always draws the last paragraph returns 1025 characters, more
    than the 404 of the budget. *)
Example large_target_overshoots :
  result_len (generate_text 2 101 (const_rng 9)) = Some 1025.
Proof. vm_compute. reflexivity. Qed.

(** C5.  For every target above 100 the returned string begins with the
    line ["# Technical Documentation"] followed by an empty line. *)
Theorem large_target_starts_with_header (t : Z) (r : rng) :
  100 < t ->
  exists out,
    returns t r out /\
    exists rest, out = lit "# Technical Documentation" ++ [nl; nl] ++ rest.
Proof.
  intros Ht.
  destruct (generate_text_returns t r) as (out & fuel & r' & Hrun).
  exists out. split; [now exists fuel, r' |].
  rewrite generate_text_large in Hrun by assumption.
  apply section_loop_post in Hrun as [_ (rest & ->)].
  exists rest. unfold header. now rewrite <- app_assoc.
Qed.

Lemma large_target_starts_with_header_witness :
  100 < 50000 /\
  exists out,
    returns 50000 (const_rng 4) out /\
    exists rest, out = lit "# Technical Documentation" ++ [nl; nl] ++ rest.
Proof.
  split; [lia |].
  apply (large_target_starts_with_header 50000 (const_rng 4)); lia.
Defined.

(** ** Termination and determinism *)

(** C4.  For every integer target and every sequence of draws the
    generator raises no exception and, given more loop iterations than
    [target_tokens * 4], runs to completion and returns a string. *)
Theorem generate_text_terminates (t : Z) (r : rng) :
  (forall fuel e, generate_text fuel t r <> Raise e) /\
  exists out r', forall fuel,
    (Z.to_nat (t * 4) < fuel)%nat -> generate_text fuel t r = Ok (out, r').
Proof.
  split.
  - intros fuel e. apply generate_text_no_raise.
  - apply generate_text_total.
Qed.



(** C6.  For every target above 100 the section headings of the returned
    string are exactly ["## Section 1"], ["## Section 2"], ...,
    ["## Section m"], in this order, for some m >= 1. *)
Theorem large_target_sections_consecutive (t : Z) (r : rng) :
  100 < t ->
  exists out m,
    returns t r out /\ (1 <= m)%nat /\
    section_headings out =
    map (fun i => lit "## Section " ++ str_of_int (Z.of_nat i)) (seq 1 m).
Proof.
  intros Ht.
  destruct (generate_text_returns t r) as (out & fuel & r' & Hrun).
  pose proof Hrun as Hrun'.
  rewrite generate_text_large in Hrun' by assumption.
  change 1 with (Z.of_nat 1) in Hrun'.
  apply section_loop_headings in Hrun' as (m & Hm & Hpos).
  - exists out, m. split; [now exists fuel, r' |].
    split; [apply Hpos; rewrite len_header; lia |].
    rewrite Hm. reflexivity.
  - exists (lit "# Technical Documentation" ++ [nl]).
    unfold header. now rewrite <- app_assoc.
Qed.

Lemma large_target_sections_consecutive_witness :
  100 < 101 /\
  exists out m,
    returns 101 (const_rng 9) out /\ (1 <= m)%nat /\
    section_headings out =
    map (fun i => lit "## Section " ++ str_of_int (Z.of_nat i)) (seq 1 m).
Proof.
  split; [lia |].
  apply (large_target_sections_consecutive 101 (const_rng 9)); lia.
Defined.

(** ** The command line *)

(** C7.  When the argument reads as the integer [t], the process prints
    the generated text on standard output and, on standard error, the
    summary whose estimate is the length of that text divided by 4,
    rounded down; for [t] in (0, 100] the estimate is [t] itself and the
    length is [t * 4]. *)
Theorem main_reports_estimate (int_of_str : pystr -> option Z)
  (prog arg : pystr) (rest : list pystr) (t : Z) (r : rng) :
  int_of_str arg = Some t ->
  exists fuel out r',
    generate_text fuel t r = Ok (out, r') /\
    main int_of_str fuel (prog :: arg :: rest) r =
    Ok ({| exit_code := 0;
           stdout := out ++ [nl];
           stderr :=
             ([nl] ++ lit "---" ++ [nl] ++ lit "Target: " ++ str_of_int t
              ++ lit " tokens | Actual: ~"
              ++ str_of_int (estimated_tokens (len out))
              ++ lit " tokens (" ++ str_of_int (len out) ++ lit " chars)")
             ++ [nl] |}, r') /\
    4 * estimated_tokens (len out) <= len out
      < 4 * estimated_tokens (len out) + 4 /\
    (0 < t <= 100 -> estimated_tokens (len out) = t /\ len out = t * 4).
Proof.
  intros Hparse.
  destruct (generate_text_total t r) as (out & r' & Hgen).
  specialize (Hgen (S (Z.to_nat (t * 4))) (Nat.lt_succ_diag_r _)).
  exists (S (Z.to_nat (t * 4))), out, r'.
  split; [exact Hgen |]. split; [| split].
  - unfold main.
    destruct (Z.ltb_spec (Z.of_nat (List.length (prog :: arg :: rest))) 2)
      as [Hlt | _]; [cbn [List.length] in Hlt; lia |].
    cbn [nth]. rewrite Hparse, (bind_Ok _ Hgen). reflexivity.
  - unfold estimated_tokens.
    pose proof (Z.mul_div_le (len out) 4 eq_refl).
    pose proof (Z.mul_succ_div_gt (len out) 4 eq_refl). lia.
  - intros Ht. apply generate_text_small_len in Hgen; [| assumption].
    split; [| assumption].
    unfold estimated_tokens. rewrite Hgen. apply Z.div_mul. lia.
Qed.

Lemma main_reports_estimate_witness :
  parse_decimal (lit "50") = Some 50 /\
  exists fuel out r',
    generate_text fuel 50 (const_rng 1) = Ok (out, r') /\
    main parse_decimal fuel [lit "generate_tokens.py"; lit "50"] (const_rng 1)
    = Ok ({| exit_code := 0;
             stdout := out ++ [nl];
             stderr :=
               ([nl] ++ lit "---" ++ [nl] ++ lit "Target: " ++ str_of_int 50
                ++ lit " tokens | Actual: ~"
                ++ str_of_int (estimated_tokens (len out))
                ++ lit " tokens (" ++ str_of_int (len out) ++ lit " chars)")
               ++ [nl] |}, r') /\
    4 * estimated_tokens (len out) <= len out
      < 4 * estimated_tokens (len out) + 4 /\
    (0 < 50 <= 100 -> estimated_tokens (len out) = 50 /\ len out = 50 * 4).
Proof.
  split; [reflexivity |].
  apply (main_reports_estimate parse_decimal (lit "generate_tokens.py")
           (lit "50") [] 50 (const_rng 1)).
  reflexivity.
Defined.

(** The run of the specification's example: the argument ["50"] gives 200
    characters and a newline on standard output and the summary for 50
    tokens on standard error. *)
Example main_50 :
  match main parse_decimal 1 [lit "generate_tokens.py"; lit "50"]
          (const_rng 1) with
  | Ok (p, _) =>
    exit_code p = 0 /\ len (stdout p) = 201 /\
    stderr p =
    [nl] ++ lit "---" ++ [nl]
    ++ lit "Target: 50 tokens | Actual: ~50 tokens (200 chars)" ++ [nl]
  | _ => False
  end.
Proof. vm_compute. repeat split. Qed.

(** C8.  Without a positional argument the process exits with status 1
    and the two usage lines on standard error; with an argument that does
    not read as an integer it exits with status 1 and an error line that
    quotes the argument.  In both cases standard output stays empty and
    the random source is untouched: nothing is generated. *)
Theorem main_rejects_bad_arguments (int_of_str : pystr -> option Z)
  (fuel : nat) (r : rng) :
  (forall argv,
     (List.length argv < 2)%nat ->
     main int_of_str fuel argv r =
     Ok ({| exit_code := 1;
            stdout := [];
            stderr :=
              lit "Usage: python3 generate_tokens.py <token_count>" ++ [nl]
              ++ lit "Example: python3 generate_tokens.py 50000" ++ [nl] |},
         r)) /\
  (forall prog arg rest,
     int_of_str arg = None ->
     main int_of_str fuel (prog :: arg :: rest) r =
     Ok ({| exit_code := 1;
            stdout := [];
            stderr :=
              (lit "Error: '" ++ arg ++ lit "' is not a valid number")
              ++ [nl] |},
         r)).
Proof.
  split.
  - intros argv Hlen. unfold main.
    destruct (Z.ltb_spec (Z.of_nat (List.length argv)) 2) as [_ | Hge];
      [| lia].
    unfold ret, print, usage_line, example_line.
    rewrite <- app_assoc. reflexivity.
  - intros prog arg rest Hparse. unfold main.
    destruct (Z.ltb_spec (Z.of_nat (List.length (prog :: arg :: rest))) 2)
      as [Hlt | _]; [cbn [List.length] in Hlt; lia |].
    cbn [nth]. rewrite Hparse. reflexivity.
Qed.

Lemma main_rejects_bad_arguments_witness :
  (List.length [lit "generate_tokens.py"] < 2)%nat /\
  parse_decimal (lit "abc") = None /\
  main parse_decimal 0 [lit "generate_tokens.py"] (const_rng 0) =
  Ok ({| exit_code := 1;
         stdout := [];
         stderr :=
           lit "Usage: python3 generate_tokens.py <token_count>" ++ [nl]
           ++ lit "Example: python3 generate_tokens.py 50000" ++ [nl] |},
      const_rng 0) /\
  main parse_decimal 0 [lit "generate_tokens.py"; lit "abc"] (const_rng 0) =
  Ok ({| exit_code := 1;
         stdout := [];
         stderr :=
           (lit "Error: '" ++ lit "abc" ++ lit "' is not a valid number")
           ++ [nl] |},
      const_rng 0).
Proof.
  assert (Hlen : (List.length [lit "generate_tokens.py"] < 2)%nat)
    by (simpl; lia).
  assert (Hparse : parse_decimal (lit "abc") = None) by reflexivity.
  split; [exact Hlen |]. split; [exact Hparse |].
  split.
  - exact (proj1 (main_rejects_bad_arguments parse_decimal 0 (const_rng 0))
             _ Hlen).
  - exact (proj2 (main_rejects_bad_arguments parse_decimal 0 (const_rng 0))
             _ _ [] Hparse).
Defined.

(** * Further properties of the generator *)

(** ** The sizes of the pool elements *)

Lemma paragraphs_len p : In p paragraphs -> 170 <= len p <= 346.
Proof.
  assert (H : forallb (fun q => (170 <=? len q) && (len q <=? 346))
                paragraphs = true) by (vm_compute; reflexivity).
  rewrite forallb_forall in H. intros Hin. specialize (H p Hin).
  apply andb_true_iff in H as [H1 H2]. lia.
Qed.

Lemma code_examples_len c : In c code_examples -> 65 <= len c <= 121.
Proof.
  assert (H : forallb (fun q => (65 <=? len q) && (len q <=? 121))
                code_examples = true) by (vm_compute; reflexivity).
  rewrite forallb_forall in H. intros Hin. specialize (H c Hin).
  apply andb_true_iff in H as [H1 H2]. lia.
Qed.

Lemma drawn_In (seq : list pystr) r i : seq <> [] -> In (drawn seq r i) seq.
Proof.
  intros H. unfold drawn. apply nth_In.
  apply Nat.mod_upper_bound. destruct seq; [congruence | discriminate].
Qed.

Lemma drawn_0 (seq : list pystr) r : drawn seq r 0 = next_choice seq r.
Proof. unfold drawn, next_choice. now rewrite Nat.add_0_r. Qed.

Lemma drawn_advance (seq : list pystr) r i :
  drawn seq (advance r) i = drawn seq r (S i).
Proof.
  unfold drawn, advance. cbn [draws cursor].
  now rewrite Nat.add_succ_r.
Qed.

(** ** The small-target loop, iteration by iteration *)

Lemma appended_S r k :
  appended r (S k) =
  (space :: next_choice paragraphs r) ++ appended (advance r) k.
Proof.
  unfold appended. cbn [seq map List.concat]. rewrite drawn_0.
  f_equal. f_equal. rewrite <- seq_shift, map_map.
  apply map_ext. intros i. now rewrite drawn_advance.
Qed.

Lemma joined_S r k :
  joined r (S k) = next_choice paragraphs r ++ appended (advance r) k.
Proof.
  unfold joined, appended. cbn [seq map join_spaces]. rewrite drawn_0.
  f_equal. f_equal. rewrite <- seq_shift, !map_map.
  apply map_ext. intros i. now rewrite drawn_advance.
Qed.

(** The loop appends the paragraphs of the coming draws, one draw per
    iteration, and stops at the first length that reaches the target. *)
Lemma small_loop_account fuel tc : forall out r out' r',
  small_loop fuel tc out r = Ok (out', r') ->
  exists k,
    out' = out ++ appended r k
    /\ cursor r' = (cursor r + k)%nat
    /\ draws r' = draws r
    /\ tc <= len out'
    /\ forall j, (j < k)%nat -> len (out ++ appended r j) < tc.
Proof.
  induction fuel as [| fuel IH]; intros out r out' r' Hrun.
  - discriminate Hrun.
  - rewrite small_loop_S in Hrun.
    destruct (Z.ltb_spec (len out) tc) as [Hlt | Hge].
    + rewrite (bind_Ok _ (choice_paragraphs r)) in Hrun.
      apply IH in Hrun as (k & Hout & Hcur & Hdraws & Hlen & Hmin).
      exists (S k). rewrite appended_S.
      repeat split.
      * rewrite Hout, <- app_assoc. reflexivity.
      * rewrite Hcur. cbn [advance cursor]. lia.
      * rewrite Hdraws. reflexivity.
      * assumption.
      * intros [| j] Hj.
        -- unfold appended. cbn [seq map List.concat]. now rewrite app_nil_r.
        -- rewrite appended_S, app_assoc. apply Hmin. lia.
    + inversion Hrun; subst. exists O. unfold appended.
      cbn [seq map List.concat]. rewrite app_nil_r, Nat.add_0_r.
      repeat split; try lia.
Qed.

(** The whole small-target path: the paragraphs of the first [k + 1]
    draws are joined by spaces, where [k + 1] is the least number of
    paragraphs whose joined length reaches the target, and the text is
    sliced at the target. *)
Lemma generate_text_small_account t r :
  t <= 100 ->
  exists fuel k r',
    generate_text fuel t r = Ok (slice_to (joined r (S k)) (t * 4), r')
    /\ cursor r' = (cursor r + S k)%nat
    /\ draws r' = draws r
    /\ t * 4 <= len (joined r (S k))
    /\ forall j, (1 <= j <= k)%nat -> len (joined r j) < t * 4.
Proof.
  intros Ht.
  destruct (generate_text_total t r) as (out & r' & Hgen).
  specialize (Hgen (S (Z.to_nat (t * 4))) (Nat.lt_succ_diag_r _)).
  pose proof Hgen as Hrun.
  apply generate_text_small_inv in Hrun as (o & Hloop & ->); [| assumption].
  apply small_loop_account in Hloop as (k & -> & Hcur & Hdraws & Hlen & Hmin).
  exists (S (Z.to_nat (t * 4))), k, r'. rewrite joined_S.
  repeat split.
  - assumption.
  - rewrite Hcur. cbn [advance cursor]. lia.
  - rewrite Hdraws. reflexivity.
  - assumption.
  - intros [| j] Hj; [lia |]. rewrite joined_S. apply Hmin. lia.
Qed.

Lemma len_appended_lower r j : 171 * Z.of_nat j <= len (appended r j).
Proof.
  revert r. induction j as [| j IH]; intros r.
  - unfold appended. cbn [seq map List.concat]. apply len_nonneg.
  - rewrite appended_S, len_app, len_cons.
    pose proof (paragraphs_len (next_choice paragraphs r)
                  (next_choice_In paragraphs r paragraphs_nonempty)).
    specialize (IH (advance r)). lia.
Qed.

Lemma len_joined_1 r : len (joined r 1) = len (next_choice paragraphs r).
Proof.
  rewrite joined_S. unfold appended. cbn [seq map List.concat].
  now rewrite app_nil_r.
Qed.

Lemma generate_text_single_paragraph fuel t r :
  t * 4 <= 170 ->
  generate_text (S fuel) t r =
  Ok (slice_to (next_choice paragraphs r) (t * 4), advance r).
Proof.
  intros Ht. rewrite generate_text_small by lia.
  unfold bind. rewrite small_loop_S.
  pose proof (paragraphs_len (next_choice paragraphs r)
                (next_choice_In paragraphs r paragraphs_nonempty)).
  destruct (Z.ltb_spec (len (next_choice paragraphs r)) (t * 4)); [lia |].
  reflexivity.
Qed.

(** ** Small targets, draw by draw *)

(** X1.  On the small-target path the result is [" ".join] of the
    paragraphs selected by the first [k + 1] draws, sliced at the target
    length; [k + 1] is the least number of paragraphs whose joined length
    reaches the target, and exactly [k + 1] draws are consumed. *)
Theorem small_target_joined_paragraphs (t : Z) (r : rng) :
  t <= 100 ->
  exists fuel k r',
    generate_text fuel t r = Ok (slice_to (joined r (S k)) (t * 4), r')
    /\ cursor r' = (cursor r + S k)%nat
    /\ draws r' = draws r
    /\ t * 4 <= len (joined r (S k))
    /\ forall j, (1 <= j <= k)%nat -> len (joined r j) < t * 4.
Proof. apply generate_text_small_account. Qed.

Lemma small_target_joined_paragraphs_witness :
  100 <= 100 /\
  exists fuel k r',
    generate_text fuel 100 (seq_rng [2; 5]%nat) =
    Ok (slice_to (joined (seq_rng [2; 5]%nat) (S k)) (100 * 4), r')
    /\ cursor r' = (cursor (seq_rng [2; 5]%nat) + S k)%nat
    /\ draws r' = draws (seq_rng [2; 5]%nat)
    /\ 100 * 4 <= len (joined (seq_rng [2; 5]%nat) (S k))
    /\ forall j, (1 <= j <= k)%nat ->
                 len (joined (seq_rng [2; 5]%nat) j) < 100 * 4.
Proof.
  split; [lia |].
  apply (small_target_joined_paragraphs 100 (seq_rng [2; 5]%nat)). lia.
Defined.

(** X2.  A run for a target of at most 100 tokens consumes at least one
    and at most three draws, and at least two when the target is 87 or
    more (no single paragraph has 348 characters). *)
Theorem small_target_draw_count (t : Z) (r : rng) :
  t <= 100 ->
  exists fuel out r',
    generate_text fuel t r = Ok (out, r')
    /\ (cursor r + 1 <= cursor r' <= cursor r + 3)%nat
    /\ (87 <= t -> (cursor r + 2 <= cursor r')%nat).
Proof.
  intros Ht.
  destruct (generate_text_small_account t r Ht)
    as (fuel & k & r' & Hrun & Hcur & _ & Hlen & Hmin).
  exists fuel, (slice_to (joined r (S k)) (t * 4)), r'.
  split; [exact Hrun |].
  pose proof (paragraphs_len (next_choice paragraphs r)
                (next_choice_In paragraphs r paragraphs_nonempty)) as Hp.
  split; [split; [lia |] |].
  - destruct (Nat.le_gt_cases k 2) as [Hk | Hk]; [lia | exfalso].
    specialize (Hmin 3%nat ltac:(lia)).
    rewrite joined_S, len_app in Hmin.
    pose proof (len_appended_lower (advance r) 2). lia.
  - intros Hbig. destruct k as [| k]; [exfalso | lia].
    rewrite len_joined_1 in Hlen. lia.
Qed.

Lemma small_target_draw_count_witness :
  87 <= 100 /\
  exists fuel out r',
    generate_text fuel 87 (const_rng 0) = Ok (out, r')
    /\ (cursor (const_rng 0) + 1 <= cursor r' <= cursor (const_rng 0) + 3)%nat
    /\ (87 <= 87 -> (cursor (const_rng 0) + 2 <= cursor r')%nat).
Proof.
  split; [lia |]. apply (small_target_draw_count 87 (const_rng 0)). lia.
Defined.

(** X3.  For a target between 1 and 42 tokens the loop body never runs:
    the result is the first [target_tokens * 4] characters of the one
    paragraph drawn (every paragraph has at least 170 characters). *)
Theorem tiny_target_single_paragraph (t : Z) (r : rng) (fuel : nat) :
  0 < t <= 42 ->
  generate_text (S fuel) t r =
  Ok (firstn (Z.to_nat (t * 4)) (next_choice paragraphs r), advance r).
Proof.
  intros Ht. rewrite generate_text_single_paragraph by lia.
  unfold slice_to. destruct (Z.ltb_spec (t * 4) 0); [lia | reflexivity].
Qed.

Lemma tiny_target_single_paragraph_witness :
  0 < 42 <= 42 /\
  generate_text 1 42 (const_rng 9) =
  Ok (firstn (Z.to_nat (42 * 4)) (next_choice paragraphs (const_rng 9)),
      advance (const_rng 9)).
Proof.
  split; [lia |]. apply (tiny_target_single_paragraph 42 (const_rng 9) 0). lia.
Defined.

(** X4.  The lengths that zero and negative targets give: target 0
    returns the empty string, a negative target returns the drawn
    paragraph without its last [-4 * target_tokens] characters, which is
    nothing at all from -87 down. *)
Theorem nonpositive_target_length (t : Z) (r : rng) (fuel : nat) :
  t <= 0 ->
  exists out,
    generate_text (S fuel) t r = Ok (out, advance r)
    /\ (t = 0 -> out = [])
    /\ (t < 0 -> len out = Z.max 0 (len (next_choice paragraphs r) + t * 4)
                 /\ exists dropped,
                      next_choice paragraphs r = out ++ dropped)
    /\ (t <= -87 -> out = []).
Proof.
  intros Ht. exists (slice_to (next_choice paragraphs r) (t * 4)).
  split; [apply generate_text_single_paragraph; lia |].
  pose proof (paragraphs_len (next_choice paragraphs r)
                (next_choice_In paragraphs r paragraphs_nonempty)) as Hp.
  unfold slice_to. split; [| split].
  - intros ->. reflexivity.
  - intros Hneg. destruct (Z.ltb_spec (t * 4) 0); [| lia]. split.
    + unfold len in *. rewrite length_firstn. lia.
    + eexists. symmetry. apply firstn_skipn.
  - intros Hlow. destruct (Z.ltb_spec (t * 4) 0); [| lia].
    replace (Z.to_nat (len (next_choice paragraphs r) + t * 4)) with O by lia.
    reflexivity.
Qed.

Lemma nonpositive_target_length_witness :
  -1 <= 0 /\
  exists out,
    generate_text 1 (-1) (const_rng 9) = Ok (out, advance (const_rng 9))
    /\ (-1 = 0 -> out = [])
    /\ (-1 < 0 ->
        len out = Z.max 0 (len (next_choice paragraphs (const_rng 9)) + -1 * 4)
        /\ exists dropped,
             next_choice paragraphs (const_rng 9) = out ++ dropped)
    /\ (-1 <= -87 -> out = []).
Proof.
  split; [lia |]. apply (nonpositive_target_length (-1) (const_rng 9) 0). lia.
Defined.

(** ** The large-target loop, section by section *)

Lemma str_of_int_nonempty n : 1 <= len (str_of_int n).
Proof.
  assert (Huint : forall d, d <> Decimal.Nil ->
            1 <= len (bytes_of_string (NilEmpty.string_of_uint d))).
  { intros d Hd. destruct d; [congruence | ..];
      cbn [NilEmpty.string_of_uint]; unfold bytes_of_string;
      cbn [list_ascii_of_string map]; rewrite len_cons;
      match goal with |- 1 <= 1 + len ?x => pose proof (len_nonneg x) end;
      lia. }
  unfold str_of_int. destruct n as [| p | p]; cbn [Z.to_int].
  - vm_compute. discriminate.
  - cbn [NilEmpty.string_of_int]. apply Huint.
    apply DecimalPos.Unsigned.to_uint_nonnil.
  - cbn [NilEmpty.string_of_int]. unfold bytes_of_string.
    cbn [list_ascii_of_string map]. rewrite len_cons.
    match goal with |- 1 <= 1 + len ?x => pose proof (len_nonneg x) end.
    lia.
Qed.

Lemma section_heading_len_lower n : 15 <= len (section_heading n).
Proof.
  unfold section_heading. rewrite !len_app.
  change (len [nl]) with 1. change (len (lit "## Section ")) with 11.
  change (len [nl; nl]) with 2.
  pose proof (str_of_int_nonempty n). lia.
Qed.

(** One iteration of the [for] loop appends between 172 and
    [item_max_len i] characters and consumes one draw, or two on even
    [i]. *)
Lemma section_item_account tc i out r out' r' :
  section_item tc i out r = Ok (out', r') ->
  exists body,
    out' = out ++ body
    /\ 172 <= len body <= item_max_len i
    /\ draws r' = draws r
    /\ (cursor r + 1 <= cursor r' <= cursor r + item_max_draws i)%nat.
Proof.
  unfold section_item, item_max_len, item_max_draws. intros Hrun.
  apply bind_Ok_inv in Hrun as (p & r1 & Hp & Hrun).
  apply choice_Ok_inv in Hp as (_ & _ & -> & Hin).
  pose proof (paragraphs_len p Hin) as Hlenp.
  destruct (i mod 2 =? 0); cbn [andb] in Hrun.
  - destruct (len (out ++ p ++ [nl; nl]) <? tc).
    + apply bind_Ok_inv in Hrun as (c & r2 & Hc & Hrun).
      apply choice_Ok_inv in Hc as (_ & _ & -> & Hinc).
      pose proof (code_examples_len c Hinc) as Hlenc.
      inversion Hrun; subst.
      exists ((p ++ [nl; nl]) ++ (c ++ [nl; nl])).
      rewrite !len_app. change (len [nl; nl]) with 2.
      cbn [advance draws cursor].
      repeat split; try lia. now rewrite <- app_assoc.
    + inversion Hrun; subst. exists (p ++ [nl; nl]).
      rewrite !len_app. change (len [nl; nl]) with 2.
      cbn [advance draws cursor]. repeat split; lia.
  - inversion Hrun; subst. exists (p ++ [nl; nl]).
    rewrite !len_app. change (len [nl; nl]) with 2.
    cbn [advance draws cursor]. repeat split; lia.
Qed.

Lemma for_range_account tc range : forall out r out' r',
  for_range tc range out r = Ok (out', r') ->
  exists body,
    out' = out ++ body
    /\ 172 * Z.of_nat (List.length range) <= len body <= range_max_len range
    /\ draws r' = draws r
    /\ (cursor r + List.length range <= cursor r'
        <= cursor r + range_max_draws range)%nat.
Proof.
  induction range as [| i range IH]; intros out r out' r' Hrun.
  - inversion Hrun; subst. exists []. rewrite app_nil_r.
    cbn [List.length range_max_len range_max_draws fold_right].
    change (len []) with 0. repeat split; lia.
  - rewrite for_range_cons in Hrun.
    apply bind_Ok_inv in Hrun as (o1 & r1 & Hitem & Hrun).
    apply section_item_account in Hitem as (b1 & -> & Hb1 & Hd1 & Hc1).
    apply IH in Hrun as (b2 & -> & Hb2 & Hd2 & Hc2).
    exists (b1 ++ b2). rewrite len_app.
    unfold range_max_len, range_max_draws in *.
    cbn [List.length fold_right].
    repeat split; try lia.
    + now rewrite app_assoc.
    + congruence.
Qed.

Lemma section_body_account tc out r out' r' :
  for_range tc range5 out r = Ok (out', r') ->
  exists body,
    out' = out ++ body
    /\ 860 <= len body <= 2109
    /\ draws r' = draws r
    /\ (cursor r + 5 <= cursor r' <= cursor r + 8)%nat.
Proof.
  intros Hrun.
  apply for_range_account in Hrun as (body & Hout & Hlen & Hd & Hc).
  exists body.
  change (range_max_len range5) with 2109 in Hlen.
  change (range_max_draws range5) with 8%nat in Hc.
  change (List.length range5) with 5%nat in *.
  repeat split; try assumption; lia.
Qed.

(** The account of a run of the section loop that starts with section
    number [k]: the number [m] of sections it emits, what they add to the
    text and to the cursor, and the shape of the last one. *)
Lemma section_loop_account fuel tc : forall out k r out' r',
  section_loop fuel tc out (Z.of_nat k) r = Ok (out', r') ->
  ends_nl out ->
  exists m,
    section_headings out' =
    section_headings out
    ++ map (fun i => heading_line (Z.of_nat i)) (seq k m)
    /\ (m = O -> out' = out)
    /\ (len out < tc -> (1 <= m)%nat)
    /\ len out + 875 * Z.of_nat m <= len out'
    /\ ((1 <= m)%nat -> len out + 875 * (Z.of_nat m - 1) < tc)
    /\ draws r' = draws r
    /\ (cursor r + 5 * m <= cursor r' <= cursor r + 8 * m)%nat
    /\ ((1 <= m)%nat ->
        exists pre body,
          out' = pre ++ section_heading (Z.of_nat (k + m - 1)) ++ body
          /\ len pre < tc /\ len body <= 2109).
Proof.
  induction fuel as [| fuel IH]; intros out k r out' r' Hrun Hnl.
  - discriminate Hrun.
  - rewrite section_loop_S in Hrun.
    destruct (Z.ltb_spec (len out) tc) as [Hlt | Hge].
    + apply bind_Ok_inv in Hrun as (o1 & r1 & Hfor & Hrun).
      pose proof Hfor as Hhead.
      apply for_range_headings in Hhead as [Hnl1 Hh1];
        [| apply ends_nl_app, ends_nl_section_heading].
      apply section_body_account in Hfor as (body & Ho1 & Hbody & Hd1 & Hc1).
      pose proof (section_heading_len_lower (Z.of_nat k)) as Hhlen.
      assert (Hlen1 : len out + 875 <= len o1)
        by (rewrite Ho1, !len_app; lia).
      replace (Z.of_nat k + 1) with (Z.of_nat (S k)) in Hrun by lia.
      apply IH in Hrun
        as (m & Hm & Hzero & Hpos & Hlow & Hbefore & Hd & Hc & Hlast);
        [| assumption].
      exists (S m). repeat split.
      * rewrite Hm, Hh1, section_headings_after_nl by assumption.
        rewrite section_headings_heading, <- app_assoc. reflexivity.
      * discriminate.
      * lia.
      * lia.
      * intros _. destruct m as [| m]; [lia |].
        specialize (Hbefore ltac:(lia)). lia.
      * congruence.
      * lia.
      * lia.
      * intros _. destruct m as [| m].
        -- rewrite (Hzero eq_refl), Ho1.
           exists out, body.
           replace (k + 1 - 1)%nat with k by lia.
           rewrite <- app_assoc. repeat split; [assumption | lia].
        -- destruct (Hlast ltac:(lia)) as (pre & body' & Hout & Hpre & Hb').
           exists pre, body'.
           replace (k + S (S m) - 1)%nat with (S k + S m - 1)%nat by lia.
           repeat split; assumption.
    + inversion Hrun; subst. exists O. cbn [seq map].
      rewrite app_nil_r.
      repeat split; try reflexivity; try lia.
Qed.

Lemma ends_nl_header : ends_nl header.
Proof.
  exists (lit "# Technical Documentation" ++ [nl]).
  unfold header. now rewrite <- app_assoc.
Qed.

Lemma section_headings_header : section_headings header = [].
Proof. vm_compute. reflexivity. Qed.

(** The account of a whole run on the large-target path; [m] is the
    number of section headings of the text returned. *)
Lemma generate_text_large_account t r :
  100 < t ->
  exists fuel out r',
    generate_text fuel t r = Ok (out, r')
    /\ (1 <= List.length (section_headings out))%nat
    /\ 27 + 875 * Z.of_nat (List.length (section_headings out)) <= len out
    /\ 27 + 875 * (Z.of_nat (List.length (section_headings out)) - 1) < t * 4
    /\ draws r' = draws r
    /\ (cursor r + 5 * List.length (section_headings out) <= cursor r'
        <= cursor r + 8 * List.length (section_headings out))%nat
    /\ exists pre body,
         out =
         pre
         ++ section_heading (Z.of_nat (List.length (section_headings out)))
         ++ body
         /\ len pre < t * 4 /\ len body <= 2109.
Proof.
  intros Ht.
  destruct (generate_text_total t r) as (out & r' & Hgen).
  specialize (Hgen (S (Z.to_nat (t * 4))) (Nat.lt_succ_diag_r _)).
  exists (S (Z.to_nat (t * 4))), out, r'. split; [exact Hgen |].
  rewrite generate_text_large in Hgen by assumption.
  change 1 with (Z.of_nat 1) in Hgen.
  apply section_loop_account in Hgen
    as (m & Hm & _ & Hpos & Hlow & Hbefore & Hd & Hc & Hlast);
    [| apply ends_nl_header].
  rewrite section_headings_header in Hm. cbn [app] in Hm.
  assert (Hcount : List.length (section_headings out) = m)
    by (rewrite Hm, length_map, length_seq; reflexivity).
  rewrite Hcount. rewrite len_header in *.
  specialize (Hpos ltac:(lia)).
  specialize (Hbefore Hpos). specialize (Hlast Hpos).
  replace (1 + m - 1)%nat with m in Hlast by lia.
  repeat split; try assumption; lia.
Qed.

(** X5.  For a target above 100 the number [m] of sections is at least 1
    and bounded by the budget: the [m - 1] sections before the last one
    and the header hold at least [27 + 875 * (m - 1)] characters and stay
    below [target_tokens * 4]; the whole text has at least
    [27 + 875 * m] characters. *)
Theorem large_target_section_count (t : Z) (r : rng) :
  100 < t ->
  exists out,
    returns t r out
    /\ (1 <= List.length (section_headings out))%nat
    /\ 27 + 875 * (Z.of_nat (List.length (section_headings out)) - 1) < t * 4
    /\ 27 + 875 * Z.of_nat (List.length (section_headings out)) <= len out.
Proof.
  intros Ht.
  destruct (generate_text_large_account t r Ht)
    as (fuel & out & r' & Hrun & Hpos & Hlow & Hbefore & _).
  exists out. split; [now exists fuel, r' |]. repeat split; assumption.
Qed.

Lemma large_target_section_count_witness :
  100 < 50000 /\
  exists out,
    returns 50000 (const_rng 0) out
    /\ (1 <= List.length (section_headings out))%nat
    /\ 27 + 875 * (Z.of_nat (List.length (section_headings out)) - 1)
       < 50000 * 4
    /\ 27 + 875 * Z.of_nat (List.length (section_headings out)) <= len out.
Proof.
  split; [lia |]. apply (large_target_section_count 50000 (const_rng 0)). lia.
Defined.

(** X6.  A run for a target above 100 consumes between 5 and 8 draws for
    each section it emits (five paragraphs and at most three code
    snippets), and leaves the sequence of draws itself unchanged. *)
Theorem large_target_draw_count (t : Z) (r : rng) :
  100 < t ->
  exists fuel out r',
    generate_text fuel t r = Ok (out, r')
    /\ draws r' = draws r
    /\ (cursor r + 5 * List.length (section_headings out) <= cursor r'
        <= cursor r + 8 * List.length (section_headings out))%nat.
Proof.
  intros Ht.
  destruct (generate_text_large_account t r Ht)
    as (fuel & out & r' & Hrun & _ & _ & _ & Hd & Hc & _).
  exists fuel, out, r'. repeat split; try assumption; lia.
Qed.

Lemma large_target_draw_count_witness :
  100 < 101 /\
  exists fuel out r',
    generate_text fuel 101 (const_rng 9) = Ok (out, r')
    /\ draws r' = draws (const_rng 9)
    /\ (cursor (const_rng 9) + 5 * List.length (section_headings out)
        <= cursor r'
        <= cursor (const_rng 9) + 8 * List.length (section_headings out))%nat.
Proof.
  split; [lia |]. apply (large_target_draw_count 101 (const_rng 9)). lia.
Defined.

(** X7.  The overshoot of the large-target path is at most one section:
    the text splits into a part that is still shorter than the budget,
    the heading of the last section (whose number is the number of
    sections) and a section body of at most 2109 characters. *)
Theorem large_target_overshoot_bounded (t : Z) (r : rng) :
  100 < t ->
  exists out pre body,
    returns t r out
    /\ out =
       pre
       ++ section_heading (Z.of_nat (List.length (section_headings out)))
       ++ body
    /\ len pre < t * 4
    /\ len body <= 2109.
Proof.
  intros Ht.
  destruct (generate_text_large_account t r Ht)
    as (fuel & out & r' & Hrun & _ & _ & _ & _ & _ & pre & body & Hlast).
  exists out, pre, body. split; [now exists fuel, r' | exact Hlast].
Qed.

Lemma large_target_overshoot_bounded_witness :
  100 < 101 /\
  exists out pre body,
    returns 101 (const_rng 0) out
    /\ out =
       pre
       ++ section_heading (Z.of_nat (List.length (section_headings out)))
       ++ body
    /\ len pre < 101 * 4
    /\ len body <= 2109.
Proof.
  split; [lia |]. apply (large_target_overshoot_bounded 101 (const_rng 0)). lia.
Defined.

(** ** The shape of a large-target text *)

Lemma ends_blank_line_app a b : ends_blank_line b -> ends_blank_line (a ++ b).
Proof. intros (pre & ->). exists (a ++ pre). now rewrite app_assoc. Qed.

Lemma ends_blank_line_piece x : ends_blank_line (x ++ [nl; nl]).
Proof. now exists x. Qed.

Lemma ends_blank_line_nl s : ends_blank_line s -> ends_nl s.
Proof. intros (pre & ->). apply ends_nl_piece. Qed.

Lemma section_loop_ends_blank_line fuel tc : forall out n r out' r',
  section_loop fuel tc out n r = Ok (out', r') ->
  ends_blank_line out -> ends_blank_line out'.
Proof.
  induction fuel as [| fuel IH]; intros out n r out' r' Hrun Hout.
  - discriminate Hrun.
  - rewrite section_loop_S in Hrun.
    destruct (len out <? tc).
    + apply bind_Ok_inv in Hrun as (o1 & r1 & Hfor & Hrun).
      apply IH in Hrun; [assumption |].
      apply (for_range_inv ends_blank_line) in Hfor; auto.
      * intros o p _ _. apply ends_blank_line_app, ends_blank_line_piece.
      * intros o c _ _. apply ends_blank_line_app, ends_blank_line_piece.
      * apply ends_blank_line_app.
        exists ([nl] ++ lit "## Section " ++ str_of_int n).
        unfold section_heading. now rewrite <- !app_assoc.
    + inversion Hrun; subst. assumption.
Qed.

(** X8.  For a target above 100 the returned text ends with an empty
    line: every piece the large-target path appends ends with two
    newlines. *)
Theorem large_target_ends_blank_line (t : Z) (r : rng) :
  100 < t ->
  exists out pre, returns t r out /\ out = pre ++ [nl; nl].
Proof.
  intros Ht.
  destruct (generate_text_returns t r) as (out & fuel & r' & Hrun).
  pose proof Hrun as Hrun'.
  rewrite generate_text_large in Hrun' by assumption.
  apply section_loop_ends_blank_line in Hrun' as (pre & ->).
  - exists (pre ++ [nl; nl]), pre. split; [now exists fuel, r' | reflexivity].
  - now exists (lit "# Technical Documentation").
Qed.

Lemma large_target_ends_blank_line_witness :
  100 < 101 /\
  exists out pre, returns 101 (const_rng 3) out /\ out = pre ++ [nl; nl].
Proof.
  split; [lia |]. apply (large_target_ends_blank_line 101 (const_rng 3)). lia.
Defined.

(** X9.  For a target above 100 the text opens with the header, the
    heading of section 1, the paragraph of the first draw and the code
    snippet of the second draw, each followed by an empty line: after the
    first paragraph the text has at most 390 characters, so the first
    code snippet is never skipped. *)
Theorem large_target_first_section (t : Z) (r : rng) :
  100 < t ->
  exists out rest,
    returns t r out
    /\ out =
       header ++ section_heading 1
       ++ (drawn paragraphs r 0 ++ [nl; nl])
       ++ (drawn code_examples r 1 ++ [nl; nl])
       ++ rest.
Proof.
  intros Ht.
  destruct (generate_text_returns t r) as (out & fuel & r' & Hrun).
  exists out. pose proof Hrun as Hrun'.
  rewrite generate_text_large in Hrun' by assumption.
  destruct fuel as [| fuel]; [discriminate Hrun' |].
  rewrite section_loop_S in Hrun'.
  destruct (Z.ltb_spec (len header) (t * 4)) as [_ | Hge];
    [| rewrite len_header in Hge; lia].
  assert (Hlen : len (header ++ section_heading 1) = 42) by reflexivity.
  remember (header ++ section_heading 1) as opening eqn:Hopening.
  apply bind_Ok_inv in Hrun' as (o1 & r1 & Hfor & Hloop).
  unfold range5 in Hfor. rewrite for_range_cons in Hfor.
  apply bind_Ok_inv in Hfor as (o0 & r0 & Hitem & Hfor).
  apply for_range_account in Hfor as (b1 & -> & _).
  apply section_loop_post in Hloop as [_ (b2 & ->)].
  exists (b1 ++ b2). split; [now exists (S fuel), r' |].
  clear Hrun. unfold section_item in Hitem.
  rewrite (bind_Ok _ (choice_paragraphs r)) in Hitem.
  change (0 mod 2 =? 0) with true in Hitem. cbn [andb] in Hitem.
  pose proof (paragraphs_len (next_choice paragraphs r)
                (next_choice_In paragraphs r paragraphs_nonempty)) as Hp.
  destruct (Z.ltb_spec
              (len (opening ++ next_choice paragraphs r ++ [nl; nl])) (t * 4))
    as [_ | Hge].
  - rewrite (bind_Ok _ (choice_code_examples (advance r))) in Hitem.
    cbv beta in Hitem. unfold ret in Hitem.
    injection Hitem as Ho0 Hr0. subst o0 opening.
    rewrite <- (drawn_0 paragraphs r).
    rewrite <- (drawn_0 code_examples (advance r)), drawn_advance.
    rewrite <- !app_assoc. reflexivity.
  - exfalso. rewrite !len_app, Hlen in Hge.
    change (len [nl; nl]) with 2 in Hge. lia.
Qed.

Lemma large_target_first_section_witness :
  100 < 101 /\
  exists out rest,
    returns 101 (seq_rng [1; 2]%nat) out
    /\ out =
       header ++ section_heading 1
       ++ (drawn paragraphs (seq_rng [1; 2]%nat) 0 ++ [nl; nl])
       ++ (drawn code_examples (seq_rng [1; 2]%nat) 1 ++ [nl; nl])
       ++ rest.
Proof.
  split; [lia |].
  apply (large_target_first_section 101 (seq_rng [1; 2]%nat)). lia.
Defined.

(** ** The command line on a large target *)

(** X10.  When the argument reads as an integer above 100, the process
    exits with status 0 and standard output is the header, the sections
    numbered 1, ..., m without gap (m >= 1) and the final newline of
    [print]; it holds more than [target_tokens * 4] characters. *)
Theorem main_large_run (int_of_str : pystr -> option Z)
  (prog arg : pystr) (rest : list pystr) (t : Z) (r : rng) :
  int_of_str arg = Some t ->
  100 < t ->
  exists fuel p r' m body,
    main int_of_str fuel (prog :: arg :: rest) r = Ok (p, r')
    /\ exit_code p = 0
    /\ stdout p = header ++ body ++ [nl]
    /\ t * 4 < len (stdout p)
    /\ (1 <= m)%nat
    /\ section_headings (stdout p) =
       map (fun i => heading_line (Z.of_nat i)) (seq 1 m).
Proof.
  intros Hparse Ht.
  destruct (generate_text_total t r) as (out & r' & Hgen).
  specialize (Hgen (S (Z.to_nat (t * 4))) (Nat.lt_succ_diag_r _)).
  pose proof Hgen as Hloop.
  rewrite generate_text_large in Hloop by assumption.
  pose proof (section_loop_post _ _ _ _ _ _ _ Hloop) as [Hlen (body & Hbody)].
  pose proof (section_loop_ends_blank_line _ _ _ _ _ _ _ Hloop
                (ends_blank_line_piece (lit "# Technical Documentation")))
    as Hblank.
  change 1 with (Z.of_nat 1) in Hloop.
  apply section_loop_headings in Hloop as (m & Hm & Hpos);
    [| apply ends_nl_header].
  rewrite section_headings_header in Hm. cbn [app] in Hm.
  exists (S (Z.to_nat (t * 4))),
    {| exit_code := 0;
       stdout := print out [];
       stderr := print (summary_line t (len out)) [] |}, r', m, body.
  cbn [exit_code stdout]. unfold print. cbn [app].
  repeat split.
  - unfold main.
    destruct (Z.ltb_spec (Z.of_nat (List.length (prog :: arg :: rest))) 2)
      as [Hlt | _]; [cbn [List.length] in Hlt; lia |].
    cbn [nth]. rewrite Hparse, (bind_Ok _ Hgen). reflexivity.
  - rewrite Hbody, <- app_assoc. reflexivity.
  - rewrite len_app. change (len [nl]) with 1. lia.
  - apply Hpos. rewrite len_header. lia.
  - rewrite section_headings_after_nl by now apply ends_blank_line_nl.
    change (section_headings [nl]) with (@nil pystr).
    now rewrite app_nil_r.
Qed.

Lemma main_large_run_witness :
  parse_decimal (lit "50000") = Some 50000 /\
  100 < 50000 /\
  exists fuel p r' m body,
    main parse_decimal fuel [lit "generate_tokens.py"; lit "50000"]
      (const_rng 4) = Ok (p, r')
    /\ exit_code p = 0
    /\ stdout p = header ++ body ++ [nl]
    /\ 50000 * 4 < len (stdout p)
    /\ (1 <= m)%nat
    /\ section_headings (stdout p) =
       map (fun i => heading_line (Z.of_nat i)) (seq 1 m).
Proof.
  split; [reflexivity |]. split; [lia |].
  apply (main_large_run parse_decimal (lit "generate_tokens.py")
           (lit "50000") [] 50000 (const_rng 4)); [reflexivity | lia].
Defined.

(** ** Code snippets and the budget *)

(** X11.  Once the text has reached the budget, the iterations of the
    [for] loop that remain add paragraphs only: each appends the paragraph
    of the next draw and an empty line, never a code snippet, and consumes
    exactly one draw. *)
Theorem for_range_after_budget (tc : Z) (range : list Z) (out : pystr)
  (r : rng) :
  tc <= len out ->
  for_range tc range out r =
  Ok (out
      ++ List.concat
           (map (fun i => drawn paragraphs r i ++ [nl; nl])
                (seq 0 (List.length range))),
      Nat.iter (List.length range) advance r).
Proof.
  revert out r. induction range as [| i range IH]; intros out r Hlen.
  - cbn [List.length seq map List.concat Nat.iter]. now rewrite app_nil_r.
  - rewrite for_range_cons. unfold bind at 1. unfold section_item.
    rewrite (bind_Ok _ (choice_paragraphs r)).
    destruct (Z.ltb_spec
                (len (out ++ next_choice paragraphs r ++ [nl; nl])) tc)
      as [Hlt | _].
    + exfalso. rewrite len_app in Hlt.
      pose proof (len_nonneg (next_choice paragraphs r ++ [nl; nl])). lia.
    + rewrite andb_false_r. unfold ret at 1. cbv beta iota.
      rewrite IH.
      * cbn [List.length seq map List.concat]. rewrite Nat.iter_succ_r.
        rewrite drawn_0, <- seq_shift, map_map, <- !app_assoc.
        do 4 f_equal. f_equal. f_equal. apply map_ext. intros j.
        now rewrite drawn_advance.
      * rewrite len_app.
        pose proof (len_nonneg (next_choice paragraphs r ++ [nl; nl])). lia.
Qed.

Lemma for_range_after_budget_witness :
  390 <= len (List.repeat space 400) /\
  for_range 390 range5 (List.repeat space 400) (const_rng 7) =
  Ok (List.repeat space 400
      ++ List.concat
           (map (fun i => drawn paragraphs (const_rng 7) i ++ [nl; nl])
                (seq 0 (List.length range5))),
      Nat.iter (List.length range5) advance (const_rng 7)).
Proof.
  assert (H : 390 <= len (List.repeat space 400))
    by (unfold len; rewrite repeat_length; lia).
  split; [exact H |].
  exact (for_range_after_budget 390 range5 (List.repeat space 400)
           (const_rng 7) H).
Defined.
